(** * wyrm: the ring buffer of [wyrm/ringbuffer.py]

    A shallow embedding of the class [RingBuffer] (constructor, [append],
    [get]) and of the timing harness [profile] that drives it, with the
    properties of the wrap-around write and of the reconstruction done by
    [get].  [pretty_print] and [main] only format and plot floating-point
    timings and are left out.

    Modelling choices.
    - Python integers are [Z]; [len] of an array is [Z.of_nat (length _)].
    - A two-dimensional numpy array is the list of its rows.  A row is a
      value of an abstract type [Row]: every array handled here has the
      buffer's number of columns, the source never inspects a row.
    - numpy itself is not part of the repository.  The three numpy
      operations the class relies on are modelled after numpy's documented
      behaviour: [np.empty] (rejects a negative dimension, otherwise
      returns an array of arbitrary content), basic slicing with Python's
      index normalisation, and slice assignment with broadcasting along the
      first axis.
    - The methods mutate [self] and may raise: they live in a small
      state-and-exception monad over the record of the instance's
      attributes.  A raised exception keeps the mutations done before it. *)

From Stdlib Require Import ZArith List Bool Lia.
Import ListNotations.
Local Open Scope Z_scope.

Set Implicit Arguments.

(** ** Exceptions and the method monad *)

Inductive exn : Type := ValueError.

Inductive result (A : Type) : Type :=
| Ok (a : A)
| Raise (e : exn).
Arguments Ok {A} a.
Arguments Raise {A} e.

Section Buffer.

Variable Row : Type.

(** A 2-D array, as the list of its rows (axis 0). *)
Definition ndarray : Type := list Row.

Definition len (a : ndarray) : Z := Z.of_nat (length a).

(** *** Python slicing *)

(** Normalisation of one slice bound against a sequence of length [n]:
    a negative bound counts from the end, and the result is clipped to
    [0, n]. *)
Definition norm_index (n i : Z) : Z :=
  if i <? 0 then Z.max (i + n) 0 else Z.min i n.

(** Start position and number of rows selected by [lo:hi] (step 1);
    [None] is an omitted bound. *)
Definition slice_range (lo hi : option Z) (n : Z) : nat * nat :=
  let a := match lo with Some i => norm_index n i | None => 0 end in
  let b := match hi with Some j => norm_index n j | None => n end in
  (Z.to_nat a, Z.to_nat (b - a)).

(** [a[lo:hi]] *)
Definition getslice (lo hi : option Z) (a : ndarray) : ndarray :=
  let (s, k) := slice_range lo hi (len a) in
  firstn k (skipn s a).

(** [a[lo:hi] = v]: the selected rows are replaced by the rows of [v];
    an array of exactly one row is broadcast over the selection; any other
    mismatch of the row counts is numpy's broadcasting [ValueError]. *)
Definition setslice (lo hi : option Z) (a v : ndarray) : result ndarray :=
  let (s, k) := slice_range lo hi (len a) in
  if Nat.eqb (length v) k then Ok (firstn s a ++ v ++ skipn (s + k) a)
  else match v with
       | [r] => Ok (firstn s a ++ repeat r k ++ skipn (s + k) a)
       | _ => Raise ValueError
       end.

(** [np.empty(shape)]: a negative dimension is a [ValueError]; otherwise
    the content of the new array is whatever the memory held, given here by
    [junk].  A zero dimension is accepted and gives an array without rows.
    Running out of memory is not modelled. *)
Definition np_empty (junk : nat -> Row) (shape : Z * Z) : result ndarray :=
  if (fst shape <? 0) || (snd shape <? 0) then Raise ValueError
  else Ok (map junk (seq 0 (Z.to_nat (fst shape)))).

(** *** The instance *)

Record RingBuffer : Type := mkRingBuffer {
  shape : Z * Z;
  data : ndarray;
  full : bool;
  idx : Z
}.

Definition M (A : Type) : Type := RingBuffer -> result A * RingBuffer.

Definition ret {A} (a : A) : M A := fun self => (Ok a, self).

Definition bind {A B} (m : M A) (k : A -> M B) : M B :=
  fun self =>
    match m self with
    | (Ok a, self') => k a self'
    | (Raise e, self') => (Raise e, self')
    end.

Notation "x <- m ;; k" := (bind m (fun x => k))
  (at level 61, m at next level, right associativity).
Notation "m ;;; k" := (bind m (fun _ => k))
  (at level 61, right associativity).

Definition self_shape : M (Z * Z) := fun self => (Ok (shape self), self).
Definition self_data : M ndarray := fun self => (Ok (data self), self).
Definition self_idx : M Z := fun self => (Ok (idx self), self).

Definition set_data (d : ndarray) : M unit :=
  fun self => (Ok tt, mkRingBuffer (shape self) d (full self) (idx self)).
Definition set_full (b : bool) : M unit :=
  fun self => (Ok tt, mkRingBuffer (shape self) (data self) b (idx self)).
Definition set_idx (i : Z) : M unit :=
  fun self => (Ok tt, mkRingBuffer (shape self) (data self) (full self) i).

Definition lift {A} (r : result A) : M A := fun self => (r, self).

(** [self.data[lo:hi] = v] *)
Definition assign_data (lo hi : option Z) (v : ndarray) : M unit :=
  d <- self_data ;;
  d' <- lift (setslice lo hi d v) ;;
  set_data d'.

(** [RingBuffer.__init__] *)
Definition __init__ (junk : nat -> Row) (shp : Z * Z) : result RingBuffer :=
  match np_empty junk shp with
  | Ok d => Ok (mkRingBuffer shp d false 0)
  | Raise e => Raise e
  end.

(** The body of the [if] branch of [append]: the chunk fits before the
    physical end. *)
Definition append_simple (data : ndarray) : M unit :=
  i <- self_idx ;;
  assign_data (Some i) (Some (i + len data)) data ;;;
  i <- self_idx ;;
  set_idx (i + len data).

(** The body of the [else] branch of [append]: the wrap. *)
Definition append_wrap (data : ndarray) : M unit :=
  set_full true ;;;
  shp <- self_shape ;;
  i <- self_idx ;;
  let l1 := fst shp - i in
  let l2 := len data - l1 in
  assign_data (Some (- l1)) None (getslice None (Some l1) data) ;;;
  assign_data None (Some l2) (getslice (Some l1) None data) ;;;
  set_idx l2.

(** The first statement of [append]: an oversized chunk is cut down to
    [data[-self.shape[0]:]]. *)
Definition truncate (cap : Z) (data : ndarray) : ndarray :=
  if len data >? cap then getslice (Some (- cap)) None data else data.

(** [RingBuffer.append] *)
Definition append (data0 : ndarray) : M unit :=
  shp <- self_shape ;;
  let data := truncate (fst shp) data0 in
  if len data =? 0 then ret tt
  else
    i <- self_idx ;;
    if i + len data <? fst shp then append_simple data
    else append_wrap data.

(** [RingBuffer.get]; it only reads the attributes and returns a new
    array. *)
Definition get (self : RingBuffer) : ndarray :=
  if full self
  then getslice (Some (idx self)) None (data self)
       ++ getslice None (Some (idx self)) (data self)
  else getslice None (Some (idx self)) (data self).

(** *** Sequences of calls *)

(** The instance after a call, whether it returned or raised. *)
Definition after {A} (m : M A) (self : RingBuffer) : RingBuffer := snd (m self).

(** Successive [append] calls, stopping at the first exception. *)
Fixpoint appends (chunks : list ndarray) : M unit :=
  match chunks with
  | [] => ret tt
  | c :: cs => append c ;;; appends cs
  end.

Inductive call : Type :=
| Append (rows : ndarray)
| Get.

(** One call of the public interface; an exception is caught by the caller
    and the instance lives on. *)
Definition step (self : RingBuffer) (c : call) : RingBuffer :=
  match c with
  | Append rows => after (append rows) self
  | Get => after (fun s => (Ok (get s), s)) self
  end.

Definition run (calls : list call) (self : RingBuffer) : RingBuffer :=
  fold_left step calls self.

(** *** Specification vocabulary *)

(** The last [n] elements of a list (the whole list when it is shorter). *)
Definition lastn {A} (n : nat) (l : list A) : list A :=
  skipn (length l - n) l.

(** Capacity of an instance, as a natural number. *)
Definition capacity (self : RingBuffer) : nat := Z.to_nat (fst (shape self)).

(** Shape invariant of an instance: at least one row, storage of exactly
    [capacity] rows, cursor inside the storage. *)
Definition wf (self : RingBuffer) : Prop :=
  1 <= fst (shape self)
  /\ len (data self) = fst (shape self)
  /\ 0 <= idx self < fst (shape self).

End Buffer.

Arguments Append {Row} rows.
Arguments Get {Row}.

(** ** The concrete scenario: capacity 4, one channel *)

Module Scenario.

Definition row : Type := list Z.
Definition junk (_ : nat) : row := [0%Z].

Definition shp : Z * Z := (4, 1).
Definition chunks : list (ndarray row) := [[[1]; [2]; [3]]; [[4]; [5]]].
Definition oversized : ndarray row := [[6]; [7]; [8]; [9]; [10]].

Definition rb0 : RingBuffer row :=
  match __init__ junk shp with Ok rb => rb | Raise _ => mkRingBuffer (0, 0) [] false 0 end.
Definition rb1 := after (append [[1]; [2]; [3]]) rb0.
Definition rb2 := after (append [[4]; [5]]) rb1.
Definition rb3 := after (append [[6]; [7]; [8]; [9]; [10]]) rb2.

End Scenario.

(** ** The timing harness: [profile]

    [profile(rb, shape, iterations)] first fills the buffer with one array
    of the buffer's own shape, then times [iterations] rounds of
    [rb.append(data); rb.get()] on fresh arrays of the given shape.

    Wall-clock time is outside the model: the successive readings of
    [time.time()] are given by [clock] (the [n]-th reading of the call),
    and the float operations on them, the difference [t1 - t0] and the
    final scaling by [1000], by [minus] and [ms].  The [k]-th array that
    [np.empty] hands out during the call has the content [junk k].  As with
    the class itself, rows are abstract, so the arrays of [shape] are taken
    to have the buffer's number of columns. *)

Section Harness.

Variables Row Time : Type.
Variable clock : nat -> Time.
Variable minus : Time -> Time -> Time.
Variable ms : Time -> Time.
Variable junk : nat -> nat -> Row.

Local Notation "x <- m ;; k" := (bind m (fun x => k))
  (at level 61, m at next level, right associativity).
Local Notation "m ;;; k" := (bind m (fun _ => k))
  (at level 61, right associativity).

(** The rounds [i, i + n) of the [for] loop, with the list [times] built so
    far. *)
Fixpoint profile_loop (shape : Z * Z) (n i : nat) (times : list Time)
  : M Row (list Time) :=
  match n with
  | O => ret times
  | S n' =>
      data <- lift (np_empty (junk (S i)) shape) ;;
      let t0 := clock (2 * i) in
      append data ;;;
      _ <- (fun self => (Ok (get self), self)) ;;
      let t1 := clock (2 * i + 1) in
      profile_loop shape n' (S i) (times ++ [minus t1 t0])
  end.

(** [profile], as a method-like computation on the buffer [rb]. *)
Definition profile (shape : Z * Z) (iterations : Z) : M Row (list Time) :=
  shp <- self_shape (Row := Row) ;;
  warm <- lift (np_empty (junk 0) shp) ;;
  append warm ;;;
  times <- profile_loop shape (Z.to_nat iterations) 0 [] ;;
  ret (map ms times).

(** The arrays the rounds [i, i + n) append, and the samples they record. *)
Definition profile_chunks (shape : Z * Z) (n i : nat) : list (ndarray Row) :=
  map (fun k => map (junk (S k)) (seq 0 (Z.to_nat (fst shape)))) (seq i n).

Definition profile_samples (n i : nat) : list Time :=
  map (fun k => minus (clock (2 * k + 1)) (clock (2 * k))) (seq i n).

End Harness.

(** Concrete inputs for the properties beyond the scenario. *)
Module Bench.

Import Scenario.

(** A zero-capacity instance, as the constructor returns it. *)
Definition rbz : RingBuffer row := mkRingBuffer (0, 1) [] false 0.

Definition clock (n : nat) : Z := Z.of_nat n.
Definition junks (k j : nat) : row := [Z.of_nat k].
Definition ms (t : Z) : Z := t * 1000.

Definition small : list (ndarray row) := [[[1]]; [[2]; [3]]].

End Bench.

(** ** Lists: the last rows of a list *)

Section ListFacts.

Context {A : Type}.
Implicit Types l h x : list A.

Lemma length_lastn n l : length (lastn n l) = Nat.min n (length l).
Proof. unfold lastn. rewrite length_skipn. lia. Qed.

Lemma lastn_all n l : (length l <= n)%nat -> lastn n l = l.
Proof.
  intros H. unfold lastn.
  replace (length l - n)%nat with 0%nat by lia. reflexivity.
Qed.

Lemma lastn_nil n : lastn n (@nil A) = [].
Proof. reflexivity. Qed.

Lemma lastn_app_ge n h x :
  (n <= length x)%nat -> lastn n (h ++ x) = lastn n x.
Proof.
  intros H. unfold lastn. rewrite skipn_app, length_app.
  rewrite skipn_all2 by lia. simpl. f_equal. lia.
Qed.

Lemma lastn_app_lt n h x :
  (length x <= n)%nat -> lastn n (h ++ x) = lastn (n - length x) h ++ x.
Proof.
  intros H. unfold lastn. rewrite skipn_app, length_app.
  replace (length h + length x - n - length h)%nat with 0%nat by lia.
  simpl. do 2 f_equal. lia.
Qed.

(** Only the last [n] elements of the older part matter. *)
Lemma lastn_app_lastn_l n h x : lastn n (h ++ x) = lastn n (lastn n h ++ x).
Proof.
  destruct (Nat.le_gt_cases n (length x)) as [Hx | Hx].
  - now rewrite !lastn_app_ge.
  - rewrite !lastn_app_lt by lia. f_equal.
    unfold lastn. rewrite skipn_skipn, !length_skipn. f_equal. lia.
Qed.

Lemma lastn_lastn n l : lastn n (lastn n l) = lastn n l.
Proof. apply lastn_all. rewrite length_lastn. lia. Qed.

(** Only the last [n] elements of the newer part matter. *)
Lemma lastn_app_lastn_r n h x : lastn n (h ++ x) = lastn n (h ++ lastn n x).
Proof.
  destruct (Nat.le_gt_cases n (length x)) as [Hx | Hx].
  - rewrite (lastn_app_ge h x) by lia.
    rewrite lastn_app_ge by (rewrite length_lastn; lia).
    symmetry. apply lastn_lastn.
  - now rewrite (lastn_all x) by lia.
Qed.

Lemma lastn_min n l : lastn (Nat.min n (length l)) l = lastn n l.
Proof. unfold lastn. f_equal. lia. Qed.

Lemma firstn_app_len n l x : length l = n -> firstn n (l ++ x) = l.
Proof.
  intros <-. rewrite firstn_app, firstn_all, Nat.sub_diag. simpl.
  apply app_nil_r.
Qed.

Lemma skipn_app_len n l x : length l = n -> skipn n (l ++ x) = x.
Proof.
  intros <-. now rewrite skipn_app, skipn_all, Nat.sub_diag.
Qed.

Lemma skipn_app_le n l x :
  (n <= length l)%nat -> skipn n (l ++ x) = skipn n l ++ x.
Proof.
  intros H. rewrite skipn_app.
  now replace (n - length l)%nat with 0%nat by lia.
Qed.

Lemma skipn_app_ge n l x :
  (length l <= n)%nat -> skipn n (l ++ x) = skipn (n - length l) x.
Proof.
  intros H. rewrite skipn_app. now rewrite skipn_all2 by assumption.
Qed.

(** Rotating a list by [n] and dropping [k] more elements. *)
Lemma skipn_rotate n k l :
  (n <= length l)%nat ->
  skipn k (skipn n l ++ firstn n l)
  = skipn (k + n) l ++ skipn (k - (length l - n)) (firstn n l).
Proof.
  intros H. rewrite skipn_app, skipn_skipn, length_skipn. reflexivity.
Qed.

Lemma lastn_concat_singletons n l :
  lastn n (concat (map (fun r => [r]) l)) = lastn n l.
Proof.
  f_equal. induction l as [| r l IH]; simpl; [reflexivity | now rewrite IH].
Qed.

End ListFacts.

(** ** Slices with in-range bounds *)

Section SliceFacts.

Variable Row : Type.
Implicit Types a v : ndarray Row.

Lemma slice_range_upto k n :
  0 <= k -> 0 <= n ->
  slice_range None (Some k) n = (0%nat, Z.to_nat (Z.min k n)).
Proof.
  intros Hk Hn. unfold slice_range, norm_index.
  destruct (Z.ltb_spec k 0); [lia |]. simpl. f_equal. lia.
Qed.

Lemma slice_range_from k n :
  0 <= k -> 0 <= n ->
  slice_range (Some k) None n = (Z.to_nat (Z.min k n), Z.to_nat (n - Z.min k n)).
Proof.
  intros Hk Hn. unfold slice_range, norm_index.
  destruct (Z.ltb_spec k 0); [lia | reflexivity].
Qed.

Lemma slice_range_last c n :
  1 <= c -> 0 <= n ->
  slice_range (Some (- c)) None n
  = ((Z.to_nat n - Z.to_nat c)%nat, Nat.min (Z.to_nat c) (Z.to_nat n)).
Proof.
  intros Hc Hn. unfold slice_range, norm_index.
  destruct (Z.ltb_spec (- c) 0); [| lia]. f_equal; lia.
Qed.

Lemma slice_range_window i j n :
  0 <= i <= j -> j <= n ->
  slice_range (Some i) (Some j) n = (Z.to_nat i, Z.to_nat (j - i)).
Proof.
  intros Hi Hj. unfold slice_range, norm_index.
  destruct (Z.ltb_spec i 0); [lia |]. destruct (Z.ltb_spec j 0); [lia |].
  f_equal; lia.
Qed.

Lemma len_nonneg a : 0 <= len a.
Proof. unfold len. lia. Qed.

Lemma getslice_upto k a :
  0 <= k -> getslice None (Some k) a = firstn (Z.to_nat k) a.
Proof.
  intros Hk. unfold getslice.
  rewrite slice_range_upto by (auto using len_nonneg). simpl.
  destruct (Z.le_gt_cases k (len a)) as [H | H].
  - now rewrite Z.min_l.
  - unfold len in *. rewrite Z.min_r by lia.
    rewrite !firstn_all2; trivial; lia.
Qed.

Lemma getslice_from k a :
  0 <= k -> getslice (Some k) None a = skipn (Z.to_nat k) a.
Proof.
  intros Hk. unfold getslice.
  rewrite slice_range_from by (auto using len_nonneg).
  rewrite firstn_all2 by (rewrite length_skipn; unfold len; lia).
  destruct (Z.le_gt_cases k (len a)) as [H | H].
  - now rewrite Z.min_l.
  - unfold len in *. rewrite Z.min_r by lia.
    rewrite !skipn_all2; trivial; lia.
Qed.

Lemma getslice_last c a :
  1 <= c -> getslice (Some (- c)) None a = lastn (Z.to_nat c) a.
Proof.
  intros Hc. unfold getslice.
  rewrite slice_range_last by (auto using len_nonneg).
  unfold len. rewrite Nat2Z.id.
  rewrite firstn_all2 by (rewrite length_skipn; lia). reflexivity.
Qed.

Lemma getslice_nil lo hi : getslice lo hi (@nil Row) = [].
Proof.
  unfold getslice. destruct (slice_range lo hi (len [])) as [s k].
  now rewrite skipn_nil, firstn_nil.
Qed.

(** With at least one row of capacity, truncation keeps the last
    [cap] rows. *)
Lemma truncate_lastn cap a :
  1 <= cap -> truncate cap a = lastn (Z.to_nat cap) a.
Proof.
  intros Hc. unfold truncate.
  destruct (Z.gtb_spec (len a) cap) as [H | H].
  - now apply getslice_last.
  - symmetry. apply lastn_all. unfold len in H. lia.
Qed.

Lemma truncate_nil cap : truncate cap (@nil Row) = [].
Proof.
  unfold truncate. destruct (len [] >? cap); [apply getslice_nil | reflexivity].
Qed.

Lemma setslice_window i j a v :
  0 <= i <= j -> j <= len a -> len v = j - i ->
  setslice (Some i) (Some j) a v
  = Ok (firstn (Z.to_nat i) a ++ v ++ skipn (Z.to_nat j) a).
Proof.
  intros Hi Hj Hv. unfold setslice.
  rewrite slice_range_window by assumption.
  replace (length v =? Z.to_nat (j - i))%nat with true
    by (symmetry; apply Nat.eqb_eq; unfold len in Hv; lia).
  do 4 f_equal. lia.
Qed.

Lemma setslice_last l a v :
  1 <= l <= len a -> len v = l ->
  setslice (Some (- l)) None a v = Ok (firstn (Z.to_nat (len a - l)) a ++ v).
Proof.
  intros Hl Hv. unfold setslice.
  rewrite slice_range_last by (auto using len_nonneg || lia).
  unfold len in *. rewrite Nat2Z.id.
  replace (length v =? Nat.min (Z.to_nat l) (length a))%nat with true
    by (symmetry; apply Nat.eqb_eq; lia).
  rewrite skipn_all2 by lia. rewrite app_nil_r.
  do 3 f_equal. lia.
Qed.

Lemma setslice_upto l a v :
  0 <= l <= len a -> len v = l ->
  setslice None (Some l) a v = Ok (v ++ skipn (Z.to_nat l) a).
Proof.
  intros Hl Hv. unfold setslice.
  rewrite slice_range_upto by (auto using len_nonneg || lia).
  rewrite Z.min_l by lia.
  replace (length v =? Z.to_nat l)%nat with true
    by (symmetry; apply Nat.eqb_eq; unfold len in Hv; lia).
  reflexivity.
Qed.

End SliceFacts.

(** ** One call of [append], branch by branch *)

Section AppendFacts.

Variable Row : Type.
Implicit Types (self : RingBuffer Row) (rows d : ndarray Row).

(** Step 2 of [append]: an empty chunk returns at once. *)
Lemma append_nil self : append [] self = (Ok tt, self).
Proof.
  unfold append, bind, self_shape. rewrite truncate_nil. reflexivity.
Qed.

(** The [if] branch. *)
Lemma append_fits self rows :
  wf self -> rows <> [] -> idx self + len rows < fst (shape self) ->
  append rows self
  = (Ok tt,
     mkRingBuffer (shape self)
       (firstn (Z.to_nat (idx self)) (data self) ++ rows
        ++ skipn (Z.to_nat (idx self + len rows)) (data self))
       (full self) (idx self + len rows)).
Proof.
  destruct self as [[c ch] dat f i]. unfold wf. simpl.
  intros (Hc & Hlen & Hi) Hne Hfit.
  assert (Hpos : 0 < len rows)
    by (destruct rows; [congruence | unfold len; simpl; lia]).
  unfold append, bind, self_shape, self_idx. simpl.
  assert (Ht : truncate c rows = rows).
  { unfold truncate. destruct (Z.gtb_spec (len rows) c); [lia | reflexivity]. }
  rewrite Ht.
  destruct (Z.eqb_spec (len rows) 0); [lia |]. simpl.
  destruct (Z.ltb_spec (i + len rows) c); [| lia].
  unfold append_simple, assign_data, bind, self_idx, self_data, lift, set_data,
    set_idx. simpl.
  rewrite setslice_window by lia. reflexivity.
Qed.

(** The [else] branch, on the truncated chunk [d]. *)
Lemma append_wraps self rows :
  wf self ->
  let c := fst (shape self) in
  let d := lastn (Z.to_nat c) rows in
  c <= idx self + len d ->
  append rows self
  = (Ok tt,
     mkRingBuffer (shape self)
       (skipn (Z.to_nat (c - idx self)) d
        ++ skipn (Z.to_nat (len d - (c - idx self)))
             (firstn (Z.to_nat (idx self)) (data self)
              ++ firstn (Z.to_nat (c - idx self)) d))
       true (len d - (c - idx self))).
Proof.
  destruct self as [[c ch] dat f i]. unfold wf. simpl.
  intros (Hc & Hlen & Hi) Hwrap.
  unfold append, bind, self_shape, self_idx. simpl.
  rewrite truncate_lastn by assumption.
  set (d := lastn (Z.to_nat c) rows) in *.
  assert (Hd : len d <= c).
  { unfold len, d. rewrite length_lastn. lia. }
  destruct (Z.eqb_spec (len d) 0); [lia |]. simpl.
  destruct (Z.ltb_spec (i + len d) c); [lia |].
  unfold append_wrap, assign_data, bind, self_idx, self_data, self_shape, lift,
    set_data, set_idx, set_full. simpl.
  rewrite getslice_upto, getslice_from by lia.
  rewrite setslice_last;
    [| lia | unfold len in *; rewrite length_firstn; lia].
  simpl.
  rewrite setslice_upto;
    [| unfold len in *; rewrite length_app, !length_firstn; lia
     | unfold len in *; rewrite length_skipn; lia].
  simpl. rewrite Hlen.
  replace (c - (c - i)) with i by lia. reflexivity.
Qed.

(** [get] on a well-formed instance. *)
Lemma get_wf self :
  wf self ->
  get self
  = if full self
    then skipn (Z.to_nat (idx self)) (data self)
         ++ firstn (Z.to_nat (idx self)) (data self)
    else firstn (Z.to_nat (idx self)) (data self).
Proof.
  intros (_ & _ & Hi). unfold get.
  now rewrite getslice_upto, getslice_from by lia.
Qed.

Lemma length_get self :
  wf self ->
  length (get self)
  = if full self then capacity self else Z.to_nat (idx self).
Proof.
  intros Hwf. rewrite get_wf by assumption.
  destruct Hwf as (Hc & Hlen & Hi). unfold capacity, len in *.
  destruct (full self).
  - rewrite length_app, length_skipn, length_firstn. lia.
  - rewrite length_firstn. lia.
Qed.

End AppendFacts.

(** ** The effect of one [append] on what [get] returns *)

Ltac lens :=
  repeat first [ rewrite length_app | rewrite length_skipn
               | rewrite length_firstn | rewrite length_lastn ];
  lia.

Section Transition.

Variable Row : Type.
Implicit Types (self : RingBuffer Row) (rows : ndarray Row).

Lemma wf_get_short self :
  wf self -> (length (get self) <= capacity self)%nat.
Proof.
  intros Hwf. rewrite length_get by assumption.
  destruct Hwf as (Hc & Hlen & Hi). unfold capacity.
  destruct (full self); lia.
Qed.

Lemma wf_full_iff self :
  wf self -> full self = (capacity self <=? length (get self))%nat.
Proof.
  intros Hwf. rewrite length_get by assumption.
  destruct Hwf as (Hc & Hlen & Hi). unfold capacity.
  destruct (full self); symmetry.
  - apply Nat.leb_le. lia.
  - apply Nat.leb_gt. lia.
Qed.

(** The storage after the [if] branch, read back by [get]. *)
Lemma get_after_fits (dat rows : list Row) (f : bool) (n C : nat) :
  length dat = C -> (n + length rows < C)%nat ->
  let dat' := firstn n dat ++ rows ++ skipn (n + length rows) dat in
  length dat' = C
  /\ (if f
      then skipn (n + length rows) dat' ++ firstn (n + length rows) dat'
      else firstn (n + length rows) dat')
     = lastn C ((if f then skipn n dat ++ firstn n dat else firstn n dat)
                ++ rows).
Proof.
  intros Hlen Hfit dat'.
  assert (Hfn : length (firstn n dat) = n) by lens.
  split; [unfold dat'; lens |].
  unfold dat'. rewrite app_assoc.
  assert (Hpre : length (firstn n dat ++ rows) = (n + length rows)%nat) by lens.
  rewrite firstn_app_len by assumption.
  destruct f.
  - rewrite skipn_app_len by assumption.
    rewrite lastn_app_lt by lia. rewrite app_assoc. f_equal.
    unfold lastn. rewrite length_app, length_skipn, Hfn.
    replace (length dat - n + n - (C - length rows))%nat
      with (length rows) by lia.
    rewrite skipn_rotate by lia.
    replace (length rows - (length dat - n))%nat with 0%nat by lia.
    simpl. do 2 f_equal. lia.
  - symmetry. apply lastn_all. lia.
Qed.

(** The storage after the [else] branch, read back by [get]. *)
Lemma get_after_wraps (dat d : list Row) (f : bool) (n C : nat) :
  length dat = C -> (n < C)%nat -> (length d <= C)%nat ->
  (C <= n + length d)%nat ->
  let l2 := (length d + n - C)%nat in
  let dat' := skipn (C - n) d
              ++ skipn l2 (firstn n dat ++ firstn (C - n) d) in
  length dat' = C
  /\ skipn l2 dat' ++ firstn l2 dat'
     = lastn C ((if f then skipn n dat ++ firstn n dat else firstn n dat)
                ++ d).
Proof.
  intros Hlen Hn Hd Hwrap l2 dat'.
  assert (Hfn : length (firstn n dat) = n) by lens.
  assert (Hsk : length (skipn (C - n) d) = l2) by (unfold l2; lens).
  split; [unfold dat', l2; lens |].
  unfold dat'.
  rewrite skipn_app_len, firstn_app_len by assumption.
  rewrite skipn_app_le by (unfold l2; lia).
  rewrite <- app_assoc, firstn_skipn.
  rewrite lastn_app_lt by assumption. f_equal.
  unfold lastn. destruct f.
  - rewrite length_app, length_skipn, Hfn.
    replace (length dat - n + n - (C - length d))%nat
      with (length d) by lia.
    rewrite skipn_rotate by lia.
    rewrite (skipn_all2 (n := length d + n) dat) by lia.
    simpl. f_equal. unfold l2. lia.
  - rewrite Hfn. f_equal. unfold l2. lia.
Qed.

(** On a well-formed instance [append] returns normally, keeps the
    instance well-formed and its shape fixed, and [get] then returns the
    last [capacity] rows of what it returned before followed by the
    chunk. *)
Lemma append_transition self rows :
  wf self ->
  exists self',
    append rows self = (Ok tt, self')
    /\ wf self'
    /\ shape self' = shape self
    /\ get self' = lastn (capacity self) (get self ++ rows)
    /\ full self'
       = (capacity self <=? length (get self) + length rows)%nat.
Proof.
  intros Hwf.
  pose proof (wf_get_short Hwf) as Hshort.
  pose proof (wf_full_iff Hwf) as Hfull.
  pose proof (length_get Hwf) as Hlg.
  pose proof (get_wf Hwf) as Hget.
  destruct (Nat.eq_dec (length rows) 0) as [Hz | Hnz].
  { apply length_zero_iff_nil in Hz. subst rows.
    exists self. rewrite append_nil, app_nil_r, lastn_all by assumption.
    simpl. rewrite Nat.add_0_r. auto. }
  assert (Hne : rows <> []) by (intros ->; now apply Hnz).
  set (d := lastn (capacity self) rows).
  destruct Hwf as (Hc & Hlen & Hi).
  destruct (Z.lt_ge_cases (idx self + len d) (fst (shape self)))
    as [Hfit | Hwrap].
  - (* the chunk fits strictly before the end *)
    assert (Hd : d = rows).
    { apply lastn_all. unfold len, d in Hfit. rewrite length_lastn in Hfit.
      unfold capacity in *. lia. }
    rewrite Hd in Hfit.
    eexists. split; [apply append_fits; unfold wf; auto |].
    rewrite Hlg, Hget. clear Hget Hlg Hshort Hfull.
    destruct self as [[c ch] dat f i]. unfold capacity, len in *.
    cbn [shape data full idx fst] in *.
    replace (Z.to_nat (i + Z.of_nat (length rows)))
      with (Z.to_nat i + length rows)%nat by lia.
    destruct (@get_after_fits dat rows f (Z.to_nat i) (Z.to_nat c))
      as [Hlen' Hrot]; [lia | lia |].
    assert (Hwf' : wf (mkRingBuffer (c, ch)
                         (firstn (Z.to_nat i) dat ++ rows
                          ++ skipn (Z.to_nat i + length rows) dat)
                         f (i + Z.of_nat (length rows)))).
    { unfold wf, len. cbn [shape data full idx fst]. rewrite Hlen'. lia. }
    split; [assumption | split; [reflexivity |]].
    rewrite get_wf by assumption. cbn [shape data full idx fst].
    replace (Z.to_nat (i + Z.of_nat (length rows)))
      with (Z.to_nat i + length rows)%nat by lia.
    split; [assumption |].
    destruct f; symmetry; [apply Nat.leb_le | apply Nat.leb_gt]; lia.
  - (* the wrap, exact fit included *)
    eexists. split; [apply append_wraps; unfold wf; auto |].
    fold (capacity self). fold d.
    rewrite lastn_app_lastn_r. fold d.
    rewrite Hlg, Hget.
    assert (Hdl : (length d <= capacity self)%nat)
      by (unfold d; rewrite length_lastn; lia).
    assert (Hdr : (length d <= length rows)%nat)
      by (unfold d; rewrite length_lastn; lia).
    clearbody d. clear Hget Hlg Hshort Hfull.
    destruct self as [[c ch] dat f i]. unfold capacity, len in *.
    cbn [shape data full idx fst] in *.
    replace (Z.to_nat (c - i)) with (Z.to_nat c - Z.to_nat i)%nat by lia.
    replace (Z.to_nat (Z.of_nat (length d) - (c - i)))
      with (length d + Z.to_nat i - Z.to_nat c)%nat by lia.
    destruct (@get_after_wraps dat d f (Z.to_nat i) (Z.to_nat c))
      as [Hlen' Hrot]; [lia | lia | lia | lia |].
    match goal with |- wf ?s /\ _ => assert (Hwf' : wf s) end.
    { unfold wf, len. cbn [shape data full idx fst]. rewrite Hlen'. lia. }
    split; [assumption | split; [reflexivity |]].
    rewrite get_wf by assumption. cbn [shape data full idx fst].
    replace (Z.to_nat (Z.of_nat (length d) - (c - i)))
      with (length d + Z.to_nat i - Z.to_nat c)%nat by lia.
    split; [assumption |].
    symmetry. apply Nat.leb_le. destruct f; lia.
Qed.

End Transition.

(** ** Construction and sequences of calls *)

Section Sequences.

Variable Row : Type.
Implicit Types (self : RingBuffer Row) (rows : ndarray Row).

Lemma np_empty_ok (junk : nat -> Row) shp :
  0 <= fst shp -> 0 <= snd shp ->
  np_empty junk shp = Ok (map junk (seq 0 (Z.to_nat (fst shp)))).
Proof.
  intros H1 H2. unfold np_empty.
  destruct (Z.ltb_spec (fst shp) 0); [lia |].
  destruct (Z.ltb_spec (snd shp) 0); [lia | reflexivity].
Qed.

(** What a successful construction returns. *)
Lemma init_inv (junk : nat -> Row) shp self :
  __init__ junk shp = Ok self ->
  0 <= fst shp /\ 0 <= snd shp
  /\ self = mkRingBuffer shp (map junk (seq 0 (Z.to_nat (fst shp)))) false 0.
Proof.
  unfold __init__, np_empty.
  destruct (Z.ltb_spec (fst shp) 0); [discriminate |].
  destruct (Z.ltb_spec (snd shp) 0); [discriminate |]. simpl.
  intros [= <-]. auto.
Qed.

(** A freshly constructed instance with at least one row is well-formed
    and holds no row yet. *)
Lemma init_fresh (junk : nat -> Row) shp self :
  1 <= fst shp -> __init__ junk shp = Ok self ->
  wf self /\ shape self = shp /\ get self = [] /\ full self = false
  /\ idx self = 0.
Proof.
  intros Hc Hinit. apply init_inv in Hinit as (_ & _ & ->).
  assert (Hwf : wf (mkRingBuffer shp (map junk (seq 0 (Z.to_nat (fst shp))))
                      false 0)).
  { unfold wf, len. simpl. rewrite length_map, length_seq. lia. }
  repeat split; try apply Hwf.
  rewrite get_wf by assumption. reflexivity.
Qed.

(** [append] never clears [full], whatever the instance and whether it
    returns or raises. *)
Lemma append_keeps_full self rows :
  full self = true -> full (after (append rows) self) = true.
Proof.
  intros Hf. unfold after, append, bind, self_shape, self_idx, ret.
  simpl. destruct (len (truncate (fst (shape self)) rows) =? 0);
    [assumption |].
  simpl. destruct (idx self + len (truncate (fst (shape self)) rows)
                   <? fst (shape self)).
  - unfold append_simple, assign_data, bind, self_idx, self_data, lift,
      set_data, set_idx. simpl.
    destruct (setslice _ _ _ _); assumption.
  - unfold append_wrap, assign_data, bind, self_idx, self_data, self_shape,
      lift, set_data, set_idx, set_full. simpl.
    destruct (setslice _ _ _ _); [| reflexivity]. simpl.
    destruct (setslice _ _ _ _); reflexivity.
Qed.

Lemma step_keeps_full self (c : call Row) :
  full self = true -> full (step self c) = true.
Proof.
  destruct c; simpl; [apply append_keeps_full | trivial].
Qed.

Lemma step_wf self (c : call Row) :
  wf self -> wf (step self c) /\ shape (step self c) = shape self.
Proof.
  intros Hwf. destruct c as [rows |]; simpl; [| now split].
  destruct (append_transition rows Hwf) as (s' & Hrun & Hwf' & Hsh & _).
  unfold after. rewrite Hrun. now split.
Qed.

Lemma run_wf (calls : list (call Row)) self :
  wf self -> wf (run calls self) /\ shape (run calls self) = shape self.
Proof.
  revert self. induction calls as [| c calls IH]; intros self Hwf; simpl.
  - now split.
  - destruct (step_wf c Hwf) as [Hwf' Hsh].
    destruct (IH _ Hwf') as [Hwf'' Hsh']. split; [assumption | congruence].
Qed.

(** A sequence of appends run in two parts: the instance after a prefix is
    the one the rest starts from. *)
Lemma appends_app (chunks1 chunks2 : list (ndarray Row)) self :
  appends (chunks1 ++ chunks2) self
  = bind (appends chunks1) (fun _ => appends chunks2) self.
Proof.
  revert self. induction chunks1 as [| c cs IH]; intros self; simpl.
  - reflexivity.
  - unfold bind in *. destruct (append c self) as [[[] | e] s1];
      [apply IH | reflexivity].
Qed.

(** Successive appends to a well-formed instance all return, and [get]
    then yields the last [capacity] rows of everything seen. *)
Lemma appends_transition (chunks : list (ndarray Row)) self :
  wf self ->
  exists self',
    appends chunks self = (Ok tt, self')
    /\ wf self'
    /\ shape self' = shape self
    /\ get self' = lastn (capacity self) (get self ++ concat chunks)
    /\ full self'
       = (capacity self <=? length (get self) + length (concat chunks))%nat.
Proof.
  revert self. induction chunks as [| c chunks IH]; intros self Hwf.
  - exists self. simpl. rewrite app_nil_r, Nat.add_0_r.
    rewrite lastn_all by now apply wf_get_short.
    split; [reflexivity |]. split; [assumption |]. split; [reflexivity |].
    split; [reflexivity | now apply wf_full_iff].
  - destruct (append_transition c Hwf) as (s1 & Hrun & Hwf1 & Hsh1 & Hg1 & Hf1).
    destruct (IH _ Hwf1) as (s2 & Hrun2 & Hwf2 & Hsh2 & Hg2 & Hf2).
    assert (Hcap : capacity s1 = capacity self)
      by (unfold capacity; now rewrite Hsh1).
    exists s2. simpl. unfold bind. rewrite Hrun, Hrun2.
    rewrite Hcap in *.
    split; [reflexivity |]. split; [assumption |]. split; [congruence |].
    split.
    + rewrite Hg2, Hg1, <- lastn_app_lastn_l. now rewrite app_assoc.
    + rewrite Hf2, Hg1, length_lastn, !length_app.
      destruct (Nat.leb_spec (capacity self)
                  (length (get self) + (length c + length (concat chunks))));
        [apply Nat.leb_le | apply Nat.leb_gt]; lia.
Qed.

End Sequences.

(** ** The properties of the specification *)

Section Claims.

Variable Row : Type.
Implicit Types (self : RingBuffer Row) (rows : ndarray Row).

(** C1 -- exact-fit boundary.  On a well-formed instance, a non-empty chunk
    that ends exactly at the physical end ([idx + len rows = capacity])
    fails the strict [<] test, so [append] runs its [else] (wrap) branch; the
    call returns, and afterwards [full] is set, the cursor is back at [0],
    the storage is its former rows [[0, idx)] followed by the chunk, and
    [get] returns that storage as it stands: oldest row first. *)
Theorem C1_exact_fit_takes_wrap_branch self rows :
  wf self -> rows <> [] -> idx self + len rows = fst (shape self) ->
  (idx self + len (truncate (fst (shape self)) rows) <? fst (shape self))
  = false
  /\ append rows self = append_wrap rows self
  /\ exists self',
       append rows self = (Ok tt, self')
       /\ full self' = true
       /\ idx self' = 0
       /\ data self' = firstn (Z.to_nat (idx self)) (data self) ++ rows
       /\ get self' = data self'
       /\ get self' = lastn (capacity self) (get self ++ rows).
Proof.
  intros Hwf Hne Hfit.
  pose proof Hwf as (Hc & Hlen & Hi).
  assert (Hpos : 0 < len rows)
    by (destruct rows; [congruence | unfold len; simpl; lia]).
  assert (Ht : truncate (fst (shape self)) rows = rows).
  { unfold truncate.
    destruct (Z.gtb_spec (len rows) (fst (shape self))); [lia | reflexivity]. }
  assert (Hd : lastn (Z.to_nat (fst (shape self))) rows = rows).
  { apply lastn_all. unfold len in *. lia. }
  rewrite Ht.
  assert (Htest : (idx self + len rows <? fst (shape self)) = false)
    by (apply Z.ltb_ge; lia).
  split; [assumption |]. split.
  { unfold append, bind, self_shape, self_idx. simpl. rewrite Ht.
    destruct (Z.eqb_spec (len rows) 0); [lia |]. simpl.
    now rewrite Htest. }
  assert (Hrun : append rows self
                = (Ok tt,
                   mkRingBuffer (shape self)
                     (firstn (Z.to_nat (idx self)) (data self) ++ rows)
                     true 0)).
  { pose proof (@append_wraps _ self rows Hwf) as Hw. cbv zeta in Hw.
    rewrite Hd in Hw. rewrite Hw by lia.
    replace (len rows - (fst (shape self) - idx self)) with 0 by lia.
    replace (Z.to_nat (fst (shape self) - idx self)) with (length rows)
      by (unfold len in *; lia).
    rewrite skipn_all, firstn_all. reflexivity. }
  destruct (append_transition rows Hwf) as (s' & Hrun' & Hwf' & _ & Hg & _).
  rewrite Hrun in Hrun'. injection Hrun' as <-.
  eexists. split; [exact Hrun |].
  split; [reflexivity |]. split; [reflexivity |]. split; [reflexivity |].
  split; [| exact Hg].
  rewrite get_wf by assumption. cbn [full idx data shape].
  simpl. apply app_nil_r.
Qed.

(** C2, as the code has it -- the constructor validates nothing itself: it
    fails exactly when the allocation does, that is on a negative dimension.
    Every shape with capacity [>= 0] and channels [>= 0] is accepted,
    capacity [0] included, and the new instance has [idx = 0],
    [full = false] and a storage of [capacity] rows. *)
Theorem C2_construction_rejects_only_negative (junk : nat -> Row) (shp : Z * Z) :
  ((fst shp < 0 \/ snd shp < 0) -> __init__ junk shp = Raise ValueError)
  /\ ((0 <= fst shp /\ 0 <= snd shp) ->
      exists self,
        __init__ junk shp = Ok self
        /\ shape self = shp /\ idx self = 0 /\ full self = false
        /\ len (data self) = fst shp).
Proof.
  split.
  - intros H. unfold __init__, np_empty.
    destruct (Z.ltb_spec (fst shp) 0); [reflexivity |].
    destruct (Z.ltb_spec (snd shp) 0); [reflexivity | lia].
  - intros [H1 H2]. unfold __init__. rewrite np_empty_ok by assumption.
    eexists. split; [reflexivity |]. simpl.
    unfold len. rewrite length_map, length_seq. repeat split. lia.
Qed.

(** C3 -- oversized append.  On a well-formed instance of capacity [C], a
    chunk of more than [C] rows is cut down to its last [C] rows
    ([rows[len(rows)-C:]]); the call returns and [get] then yields exactly
    those [C] rows in order, which is also what [get] yields after appending
    the rows of the chunk one at a time instead. *)
Theorem C3_oversized_append_keeps_last_rows self rows :
  wf self -> (capacity self < length rows)%nat ->
  truncate (fst (shape self)) rows
  = skipn (length rows - capacity self) rows
  /\ exists s1 s2,
       append rows self = (Ok tt, s1)
       /\ get s1 = skipn (length rows - capacity self) rows
       /\ length (get s1) = capacity self
       /\ appends (map (fun r => [r]) rows) self = (Ok tt, s2)
       /\ get s2 = get s1.
Proof.
  intros Hwf Hbig.
  pose proof Hwf as (Hc & _).
  split; [now rewrite truncate_lastn by assumption |].
  destruct (append_transition rows Hwf) as (s1 & Hrun1 & _ & _ & Hg1 & _).
  destruct (appends_transition (map (fun r => [r]) rows) Hwf)
    as (s2 & Hrun2 & _ & _ & Hg2 & _).
  exists s1, s2.
  assert (Hlast : get s1 = lastn (capacity self) rows).
  { rewrite Hg1. apply lastn_app_ge. lia. }
  split; [assumption |]. split; [exact Hlast |].
  split; [rewrite Hlast, length_lastn; lia |].
  split; [assumption |].
  rewrite Hg2, Hlast, lastn_app_lastn_r, lastn_concat_singletons.
  rewrite <- lastn_app_lastn_r. apply lastn_app_ge. lia.
Qed.

(** C4 -- capacity bound.  Starting from a freshly constructed instance of
    capacity [C >= 1], every finite sequence of [append] calls returns, and
    afterwards [get] has at most [C] rows, and exactly [C] rows as soon as
    the chunks appended so far total at least [C] rows. *)
Theorem C4_capacity_bound (junk : nat -> Row) shp self0
    (chunks : list (ndarray Row)) :
  1 <= fst shp -> __init__ junk shp = Ok self0 ->
  exists self,
    appends chunks self0 = (Ok tt, self)
    /\ (length (get self) <= Z.to_nat (fst shp))%nat
    /\ ((Z.to_nat (fst shp) <= length (concat chunks))%nat ->
        length (get self) = Z.to_nat (fst shp)).
Proof.
  intros Hc Hinit.
  destruct (@init_fresh _ _ _ _ Hc Hinit) as (Hwf & Hsh & Hg0 & _).
  destruct (appends_transition chunks Hwf) as (s & Hrun & _ & _ & Hg & _).
  exists s. split; [assumption |].
  unfold capacity in Hg. rewrite Hsh, Hg0 in Hg. simpl in Hg.
  rewrite Hg, length_lastn. split; lia.
Qed.

(** C5 -- order preservation.  Appending a chunk of at most [C] rows to a
    freshly constructed instance of capacity [C >= 1] returns, and [get]
    then yields exactly that chunk, in the same order. *)
Theorem C5_order_preservation (junk : nat -> Row) shp self0 rows :
  1 <= fst shp -> __init__ junk shp = Ok self0 ->
  len rows <= fst shp ->
  exists self, append rows self0 = (Ok tt, self) /\ get self = rows.
Proof.
  intros Hc Hinit Hn.
  destruct (@init_fresh _ _ _ _ Hc Hinit) as (Hwf & Hsh & Hg0 & _).
  destruct (append_transition rows Hwf) as (s & Hrun & _ & _ & Hg & _).
  exists s. split; [assumption |].
  rewrite Hg, Hg0. simpl. apply lastn_all.
  unfold capacity, len in *. rewrite Hsh. lia.
Qed.

(** C6 -- overwrite correctness.  On a freshly constructed instance of
    capacity [C >= 1], appending a chunk of exactly [C] rows and then a
    single row [x] makes [get] return [rows[1:C] + [x]]: the oldest row is
    gone and [x] is last. *)
Theorem C6_overwrite_correctness (junk : nat -> Row) shp self0 rows (x : Row) :
  1 <= fst shp -> __init__ junk shp = Ok self0 ->
  len rows = fst shp ->
  exists self1 self2,
    append rows self0 = (Ok tt, self1)
    /\ append [x] self1 = (Ok tt, self2)
    /\ get self2 = getslice (Some 1) (Some (fst shp)) rows ++ [x].
Proof.
  intros Hc Hinit Hn.
  destruct (@init_fresh _ _ _ _ Hc Hinit) as (Hwf & Hsh & Hg0 & _).
  destruct (append_transition rows Hwf) as (s1 & Hrun1 & Hwf1 & Hsh1 & Hg1 & _).
  destruct (append_transition [x] Hwf1) as (s2 & Hrun2 & _ & _ & Hg2 & _).
  exists s1, s2. split; [assumption |]. split; [assumption |].
  assert (Hcap : capacity s1 = capacity self0)
    by (unfold capacity; now rewrite Hsh1).
  rewrite Hg2, Hg1, Hcap, <- lastn_app_lastn_l, Hg0. simpl app at 1.
  unfold capacity. rewrite Hsh.
  rewrite lastn_app_lt by (simpl; lia). f_equal.
  unfold getslice. rewrite slice_range_window by lia.
  unfold lastn, len in *. simpl length.
  rewrite firstn_all2 by (rewrite length_skipn; lia).
  f_equal. lia.
Qed.

(** C7 -- an empty append is a no-op.  On every instance whatsoever,
    [append] of a zero-row chunk returns and leaves the instance as it was:
    same cursor, same flag, same storage, and [get] returns what it returned
    before. *)
Theorem C7_empty_append_is_noop self :
  append [] self = (Ok tt, self)
  /\ idx (after (append []) self) = idx self
  /\ full (after (append []) self) = full self
  /\ data (after (append []) self) = data self
  /\ get (after (append []) self) = get self.
Proof.
  unfold after. rewrite append_nil. simpl. auto.
Qed.

(** C8 -- range of the write cursor.  An instance constructed with capacity
    [>= 1] has [0 <= idx < capacity], and so has the instance reached after
    any sequence of [append] (chunks of any length, empty and oversized
    included) and [get] calls; no [append] of such a sequence raises. *)
Theorem C8_write_index_in_range (junk : nat -> Row) shp self0
    (calls : list (call Row)) :
  1 <= fst shp -> __init__ junk shp = Ok self0 ->
  0 <= idx self0 < fst shp
  /\ 0 <= idx (run calls self0) < fst shp
  /\ forall rows, fst (append rows (run calls self0)) = Ok tt.
Proof.
  intros Hc Hinit.
  destruct (@init_fresh _ _ _ _ Hc Hinit) as (Hwf & Hsh & _ & _ & Hi0).
  destruct (run_wf calls Hwf) as [Hwf' Hsh'].
  split; [rewrite Hi0; lia |]. split.
  - destruct Hwf' as (_ & _ & Hi). now rewrite Hsh', Hsh in Hi.
  - intros rows.
    destruct (append_transition rows Hwf') as (s & Hrun & _).
    now rewrite Hrun.
Qed.

(** C9 -- [full] is monotone.  From any instance on which [full] is set,
    no sequence of [append] and [get] calls, returning or raising, clears
    it. *)
Theorem C9_full_is_monotone self (calls : list (call Row)) :
  full self = true -> full (run calls self) = true.
Proof.
  revert self. induction calls as [| c calls IH]; intros self Hf; simpl.
  - assumption.
  - apply IH. now apply step_keeps_full.
Qed.

(** C10 -- reconstruction.  Starting from a freshly constructed instance of
    capacity [C >= 1], every finite sequence of [append] calls returns, and
    with [N] the total number of rows appended, [get] yields the last
    [min C N] rows of the concatenation of the chunks, in order, and [full]
    holds exactly when [N >= C]. *)
Theorem C10_get_returns_last_rows (junk : nat -> Row) shp self0
    (chunks : list (ndarray Row)) :
  1 <= fst shp -> __init__ junk shp = Ok self0 ->
  exists self,
    appends chunks self0 = (Ok tt, self)
    /\ get self
       = lastn (Nat.min (Z.to_nat (fst shp)) (length (concat chunks)))
           (concat chunks)
    /\ full self = (Z.to_nat (fst shp) <=? length (concat chunks))%nat.
Proof.
  intros Hc Hinit.
  destruct (@init_fresh _ _ _ _ Hc Hinit) as (Hwf & Hsh & Hg0 & _).
  destruct (appends_transition chunks Hwf) as (s & Hrun & _ & _ & Hg & Hf).
  exists s. split; [assumption |].
  unfold capacity in *. rewrite Hsh, Hg0 in *. simpl in Hg, Hf.
  rewrite lastn_min. now split.
Qed.

End Claims.

(** ** The claims at concrete inputs *)

Module Witness.

Import Scenario.

Lemma C1_witness :
  wf rb1 /\ [[4]] <> [] /\ idx rb1 + len [[4]] = fst (shape rb1)
  /\ ((idx rb1 + len (truncate (fst (shape rb1)) [[4]]) <? fst (shape rb1))
      = false
      /\ append [[4]] rb1 = append_wrap [[4]] rb1
      /\ exists self',
           append [[4]] rb1 = (Ok tt, self')
           /\ full self' = true
           /\ idx self' = 0
           /\ data self' = firstn (Z.to_nat (idx rb1)) (data rb1) ++ [[4]]
           /\ get self' = data self'
           /\ get self' = lastn (capacity rb1) (get rb1 ++ [[4]])).
Proof.
  assert (H1 : wf rb1)
    by (vm_compute; repeat split; first [discriminate | reflexivity]).
  assert (H2 : [[4]] <> @nil row) by discriminate.
  assert (H3 : idx rb1 + len [[4]] = fst (shape rb1)) by reflexivity.
  exact (conj H1 (conj H2 (conj H3
           (@C1_exact_fit_takes_wrap_branch row rb1 [[4]] H1 H2 H3)))).
Defined.

Lemma C2_witness :
  (0 <= fst (0, 1) /\ 0 <= snd (0, 1))
  /\ exists self,
       __init__ junk (0, 1) = Ok self
       /\ shape self = (0, 1) /\ idx self = 0 /\ full self = false
       /\ len (data self) = fst (0, 1).
Proof.
  assert (H : 0 <= fst (0, 1) /\ 0 <= snd (0, 1)) by (simpl; lia).
  exact (conj H
           (proj2 (@C2_construction_rejects_only_negative row junk (0, 1)) H)).
Defined.

Lemma C3_witness :
  wf rb1 /\ (capacity rb1 < length oversized)%nat
  /\ (truncate (fst (shape rb1)) oversized
      = skipn (length oversized - capacity rb1)
          oversized
      /\ exists s1 s2,
           append oversized rb1 = (Ok tt, s1)
           /\ get s1
              = skipn (length oversized - capacity rb1)
                  oversized
           /\ length (get s1) = capacity rb1
           /\ appends (map (fun r => [r]) oversized) rb1
              = (Ok tt, s2)
           /\ get s2 = get s1).
Proof.
  assert (H1 : wf rb1)
    by (vm_compute; repeat split; first [discriminate | reflexivity]).
  assert (H2 : (capacity rb1 < length oversized)%nat)
    by (vm_compute; lia).
  exact (conj H1 (conj H2
           (@C3_oversized_append_keeps_last_rows row rb1
              oversized H1 H2))).
Defined.

Lemma C4_witness :
  1 <= fst shp /\ __init__ junk shp = Ok rb0
  /\ exists self,
       appends chunks rb0 = (Ok tt, self)
       /\ (length (get self) <= Z.to_nat (fst shp))%nat
       /\ ((Z.to_nat (fst shp)
            <= length (concat chunks))%nat ->
           length (get self) = Z.to_nat (fst shp)).
Proof.
  assert (H1 : 1 <= fst shp) by (simpl; lia).
  assert (H2 : __init__ junk shp = Ok rb0) by reflexivity.
  exact (conj H1 (conj H2
           (@C4_capacity_bound row junk shp rb0
              chunks H1 H2))).
Defined.

Lemma C5_witness :
  1 <= fst shp /\ __init__ junk shp = Ok rb0
  /\ len [[1]; [2]; [3]] <= fst shp
  /\ exists self,
       append [[1]; [2]; [3]] rb0 = (Ok tt, self)
       /\ get self = [[1]; [2]; [3]].
Proof.
  assert (H1 : 1 <= fst shp) by (simpl; lia).
  assert (H2 : __init__ junk shp = Ok rb0) by reflexivity.
  assert (H3 : len [[1]; [2]; [3]] <= fst shp) by (cbn; lia).
  exact (conj H1 (conj H2 (conj H3
           (@C5_order_preservation row junk shp rb0 [[1]; [2]; [3]]
              H1 H2 H3)))).
Defined.

Lemma C6_witness :
  1 <= fst shp /\ __init__ junk shp = Ok rb0
  /\ len [[1]; [2]; [3]; [4]] = fst shp
  /\ exists self1 self2,
       append [[1]; [2]; [3]; [4]] rb0 = (Ok tt, self1)
       /\ append [[5]] self1 = (Ok tt, self2)
       /\ get self2
          = getslice (Some 1) (Some (fst shp)) [[1]; [2]; [3]; [4]]
            ++ [[5]].
Proof.
  assert (H1 : 1 <= fst shp) by (simpl; lia).
  assert (H2 : __init__ junk shp = Ok rb0) by reflexivity.
  assert (H3 : len [[1]; [2]; [3]; [4]] = fst shp) by reflexivity.
  exact (conj H1 (conj H2 (conj H3
           (@C6_overwrite_correctness row junk shp rb0
              [[1]; [2]; [3]; [4]] [5] H1 H2 H3)))).
Defined.

Lemma C8_witness :
  1 <= fst shp /\ __init__ junk shp = Ok rb0
  /\ (0 <= idx rb0 < fst shp
      /\ 0 <= idx (run [Append [[1]; [2]; [3]]; Get; Append [[4]; [5]]] rb0)
         < fst shp
      /\ forall rows,
           fst (append rows
                  (run [Append [[1]; [2]; [3]]; Get; Append [[4]; [5]]] rb0))
           = Ok tt).
Proof.
  assert (H1 : 1 <= fst shp) by (simpl; lia).
  assert (H2 : __init__ junk shp = Ok rb0) by reflexivity.
  exact (conj H1 (conj H2
           (@C8_write_index_in_range row junk shp rb0
              [Append [[1]; [2]; [3]]; Get; Append [[4]; [5]]] H1 H2))).
Defined.

Lemma C9_witness :
  full rb2 = true
  /\ full (run [Append [[6]]; Get; Append []; Append [[7]; [8]]] rb2) = true.
Proof.
  assert (H1 : full rb2 = true) by reflexivity.
  exact (conj H1
           (@C9_full_is_monotone row rb2
              [Append [[6]]; Get; Append []; Append [[7]; [8]]] H1)).
Defined.

Lemma C10_witness :
  1 <= fst shp /\ __init__ junk shp = Ok rb0
  /\ exists self,
       appends chunks rb0 = (Ok tt, self)
       /\ get self
          = lastn (Nat.min (Z.to_nat (fst shp))
                     (length (concat chunks)))
              (concat chunks)
       /\ full self
          = (Z.to_nat (fst shp)
             <=? length (concat chunks))%nat.
Proof.
  assert (H1 : 1 <= fst shp) by (simpl; lia).
  assert (H2 : __init__ junk shp = Ok rb0) by reflexivity.
  exact (conj H1 (conj H2
           (@C10_get_returns_last_rows row junk shp rb0
              chunks H1 H2))).
Defined.

(** C2 as stated fails at capacity [0]: the shape [(0, 1)] has a
    non-positive capacity, yet the constructor returns an instance (of zero
    rows) and raises nothing. *)
Lemma C2_counterexample_zero_capacity :
  fst (0, 1) <= 0
  /\ __init__ junk (0, 1) = Ok (mkRingBuffer (0, 1) [] false 0)
  /\ forall e, __init__ junk (0, 1) <> Raise e.
Proof.
  split; [simpl; lia |]. split; [reflexivity | discriminate].
Qed.

(** The scenario of the specification, run on the model. *)
Example scenario_1 : get rb1 = [[1]; [2]; [3]] /\ full rb1 = false.
Proof. split; reflexivity. Qed.

Example scenario_2 : get rb2 = [[2]; [3]; [4]; [5]] /\ full rb2 = true.
Proof. split; reflexivity. Qed.

Example scenario_3 : get rb3 = [[7]; [8]; [9]; [10]].
Proof. reflexivity. Qed.

(** The boundary case of the specification for capacity 4: [k] rows, then
    [4 - k] rows, for every [k] from 1 to 3. *)
Example boundary_wrap_4 :
  forall k, In k [1; 2; 3]%nat ->
    let rows := [[1]; [2]; [3]; [4]] in
    let self := after (append (skipn k rows)) (after (append (firstn k rows)) rb0) in
    get self = rows /\ full self = true /\ idx self = 0.
Proof.
  intros k [<- | [<- | [<- | []]]]; repeat split; reflexivity.
Qed.

End Witness.

(** ** Further properties of the class *)

Section SliceBounds.

Variable Row : Type.
Implicit Types a v : ndarray Row.

Lemma norm_index_range n i : 0 <= n -> 0 <= norm_index n i <= n.
Proof.
  intros Hn. unfold norm_index. destruct (Z.ltb_spec i 0); lia.
Qed.

(** A slice never reaches outside the sequence. *)
Lemma slice_range_inside lo hi n :
  0 <= n ->
  (fst (slice_range lo hi n) + snd (slice_range lo hi n) <= Z.to_nat n)%nat.
Proof.
  intros Hn. unfold slice_range.
  destruct lo as [i |], hi as [j |]; simpl;
    try pose proof (norm_index_range i Hn);
    try pose proof (norm_index_range j Hn); lia.
Qed.

(** Slice assignment happens in place: it never changes the number of
    rows. *)
Lemma setslice_length lo hi a v a' :
  setslice lo hi a v = Ok a' -> length a' = length a.
Proof.
  unfold setslice.
  pose proof (@slice_range_inside lo hi (len a) (len_nonneg a)) as Hin.
  destruct (slice_range lo hi (len a)) as [s k]. simpl in Hin.
  unfold len in Hin. rewrite Nat2Z.id in Hin.
  destruct (Nat.eqb_spec (length v) k) as [Hk | Hk].
  - intros [= <-]. rewrite !length_app, length_firstn, length_skipn. lia.
  - destruct v as [| r [| r' v']]; try discriminate.
    intros [= <-].
    rewrite !length_app, length_firstn, repeat_length, length_skipn. lia.
Qed.

Lemma getslice_from_any i a :
  getslice (Some i) None a = skipn (Z.to_nat (norm_index (len a) i)) a.
Proof.
  unfold getslice, slice_range.
  pose proof (norm_index_range i (len_nonneg a)) as H.
  apply firstn_all2. rewrite length_skipn. unfold len in *. lia.
Qed.

Lemma getslice_upto_any i a :
  getslice None (Some i) a = firstn (Z.to_nat (norm_index (len a) i)) a.
Proof.
  unfold getslice, slice_range. simpl. now rewrite Z.sub_0_r.
Qed.

End SliceBounds.

Section Extras.

Variable Row : Type.
Implicit Types (self : RingBuffer Row) (rows : ndarray Row).

Lemma append_keeps_storage_size self rows :
  shape (after (append rows) self) = shape self
  /\ length (data (after (append rows) self)) = length (data self).
Proof.
  unfold after, append, bind, self_shape, self_idx, ret. simpl.
  destruct (len (truncate (fst (shape self)) rows) =? 0); [now split |].
  simpl. destruct (idx self + len (truncate (fst (shape self)) rows)
                   <? fst (shape self)).
  - unfold append_simple, assign_data, bind, self_idx, self_data, lift,
      set_data, set_idx. simpl.
    destruct (setslice _ _ _ _) as [d1 | e] eqn:E1; simpl; [| now split].
    split; [reflexivity | now apply setslice_length in E1].
  - unfold append_wrap, assign_data, bind, self_idx, self_data, self_shape,
      lift, set_data, set_idx, set_full. simpl.
    destruct (setslice _ _ _ _) as [d1 | e] eqn:E1; simpl; [| now split].
    apply setslice_length in E1.
    destruct (setslice _ _ _ _) as [d2 | e] eqn:E2; simpl;
      [| split; [reflexivity | assumption]].
    apply setslice_length in E2. split; [reflexivity | congruence].
Qed.

(** X3 -- the storage is never resized.  On every instance, well-formed or
    not, no sequence of [append] and [get] calls, returning or raising,
    changes [shape] or the number of rows of [data]. *)
Theorem X3_storage_never_resized self (calls : list (call Row)) :
  shape (run calls self) = shape self
  /\ length (data (run calls self)) = length (data self).
Proof.
  revert self. induction calls as [| c calls IH]; intros self; simpl.
  - now split.
  - destruct (IH (step self c)) as [Hs Hl]. rewrite Hs, Hl.
    destruct c as [rows |]; simpl; [apply append_keeps_storage_size | now split].
Qed.

(** X8 -- [get] only ever returns stored rows.  On every instance,
    well-formed or not, there is a cut point [k] inside the storage such
    that [get] is the rotation [data[k:] + data[:k]] when [full] is set --
    every stored row exactly once -- and the prefix [data[:k]] otherwise. *)
Theorem X8_get_is_rotation_or_prefix self :
  exists k,
    (k <= length (data self))%nat
    /\ get self
       = (if full self
          then skipn k (data self) ++ firstn k (data self)
          else firstn k (data self))
    /\ length (get self) = (if full self then length (data self) else k).
Proof.
  pose proof (norm_index_range (idx self) (len_nonneg (data self))) as Hk.
  exists (Z.to_nat (norm_index (len (data self)) (idx self))).
  split; [unfold len in *; lia |].
  unfold get. rewrite getslice_from_any, getslice_upto_any.
  split; [reflexivity |].
  destruct (full self).
  - rewrite length_app, length_skipn, length_firstn. unfold len in *. lia.
  - rewrite length_firstn. unfold len in *. lia.
Qed.

(** The cursor after one [append] on a well-formed instance. *)
Lemma append_cursor self rows :
  wf self ->
  idx (after (append rows) self)
  = (idx self + Z.of_nat (Nat.min (length rows) (capacity self)))
    mod fst (shape self).
Proof.
  intros Hwf. pose proof Hwf as (Hc & Hlen & Hi).
  unfold after, capacity.
  destruct (Nat.eq_dec (length rows) 0) as [Hz | Hnz].
  { apply length_zero_iff_nil in Hz. subst rows.
    rewrite append_nil. simpl. rewrite Z.add_0_r.
    symmetry. now apply Z.mod_small. }
  assert (Hne : rows <> []) by (intros ->; now apply Hnz).
  set (d := lastn (Z.to_nat (fst (shape self))) rows).
  assert (Hd : len d = Z.of_nat (Nat.min (length rows)
                                    (Z.to_nat (fst (shape self))))).
  { unfold len, d. rewrite length_lastn. f_equal. lia. }
  rewrite <- Hd.
  destruct (Z.lt_ge_cases (idx self + len d) (fst (shape self)))
    as [Hfit | Hwrap].
  - assert (Hdr : d = rows).
    { apply lastn_all. unfold len in *. lia. }
    rewrite Hdr in *. rewrite append_fits by assumption. simpl.
    symmetry. apply Z.mod_small. unfold len in *. lia.
  - pose proof (@append_wraps _ self rows Hwf) as Hw. cbv zeta in Hw.
    fold d in Hw. rewrite Hw by assumption. simpl.
    apply Z.mod_unique with (q := 1); unfold len in *; lia.
Qed.

(** X1 -- cursor arithmetic.  On a well-formed instance of capacity [C],
    one [append] of [n] rows moves the cursor to [(idx + min n C) mod C]:
    it advances by the number of rows actually written, modulo the
    capacity. *)
Theorem X1_append_moves_cursor_modulo_capacity self rows :
  wf self ->
  idx (after (append rows) self)
  = (idx self + Z.of_nat (Nat.min (length rows) (capacity self)))
    mod fst (shape self).
Proof. apply append_cursor. Qed.

(** X2 -- a chunk of at least [C] rows replaces the whole content and
    leaves the cursor in place.  On a well-formed instance of capacity [C]
    with cursor [i], appending [n >= C] rows returns, sets [full], keeps
    [idx = i], and stores the last [C] rows [d] of the chunk rotated so that
    the oldest one sits at the cursor: [data = d[C-i:] + d[:C-i]]. *)
Theorem X2_append_of_capacity_rows_keeps_cursor self rows :
  wf self -> (capacity self <= length rows)%nat ->
  let d := lastn (capacity self) rows in
  let k := (capacity self - Z.to_nat (idx self))%nat in
  append rows self
  = (Ok tt, mkRingBuffer (shape self) (skipn k d ++ firstn k d) true (idx self))
  /\ get (after (append rows) self) = d.
Proof.
  intros Hwf Hbig d k. pose proof Hwf as (Hc & Hlen & Hi).
  assert (Hd : length d = capacity self)
    by (unfold d; rewrite length_lastn; lia).
  pose proof (@append_wraps _ self rows Hwf) as Hw. cbv zeta in Hw.
  fold (capacity self) in Hw. fold d in Hw.
  unfold capacity, len in *.
  assert (Hrun : append rows self
                 = (Ok tt, mkRingBuffer (shape self)
                             (skipn k d ++ firstn k d) true (idx self))).
  { rewrite Hw by lia.
    replace (Z.of_nat (length d) - (fst (shape self) - idx self))
      with (idx self) by lia.
    replace (Z.to_nat (fst (shape self) - idx self)) with k
      by (unfold k, capacity; lia).
    rewrite skipn_app_len by (rewrite length_firstn; lia). reflexivity. }
  split; [assumption |].
  destruct (append_transition rows Hwf) as (s' & Hrun' & _ & _ & Hg & _).
  unfold after. rewrite Hrun'. simpl. rewrite Hg.
  apply lastn_app_ge. unfold capacity. lia.
Qed.

(** X4 -- uninitialised storage never shows.  Two instances constructed
    with the same shape (capacity [>= 1]) over different memory contents
    and fed the same chunks agree on what [get] returns, on [full] and on
    the cursor. *)
Theorem X4_get_ignores_uninitialised_storage
    (junk1 junk2 : nat -> Row) shp self1 self2 (chunks : list (ndarray Row)) :
  1 <= fst shp ->
  __init__ junk1 shp = Ok self1 -> __init__ junk2 shp = Ok self2 ->
  get (after (appends chunks) self1) = get (after (appends chunks) self2)
  /\ full (after (appends chunks) self1) = full (after (appends chunks) self2)
  /\ idx (after (appends chunks) self1) = idx (after (appends chunks) self2).
Proof.
  intros Hc H1 H2.
  destruct (@init_fresh _ _ _ _ Hc H1) as (Hwf1 & Hsh1 & Hg1 & _ & Hi1).
  destruct (@init_fresh _ _ _ _ Hc H2) as (Hwf2 & Hsh2 & Hg2 & _ & Hi2).
  assert (Hidx : forall (cs : list (ndarray Row)) (s1 s2 : RingBuffer Row),
             wf s1 -> wf s2 -> shape s1 = shape s2 -> idx s1 = idx s2 ->
             idx (after (appends cs) s1) = idx (after (appends cs) s2)).
  { induction cs as [| c cs IH]; intros s1 s2 Hw1 Hw2 Hs Hi; [assumption |].
    destruct (append_transition c Hw1) as (t1 & Hr1 & Hwt1 & Hst1 & _).
    destruct (append_transition c Hw2) as (t2 & Hr2 & Hwt2 & Hst2 & _).
    pose proof (append_cursor c Hw1) as Hc1.
    pose proof (append_cursor c Hw2) as Hc2.
    unfold after in *. simpl. unfold bind. rewrite Hr1, Hr2 in *.
    simpl in Hc1, Hc2. apply IH; trivial; [congruence |].
    rewrite Hc1, Hc2. unfold capacity. now rewrite Hs, Hi. }
  destruct (appends_transition chunks Hwf1) as (t1 & Hr1 & _ & _ & Hgt1 & Hf1).
  destruct (appends_transition chunks Hwf2) as (t2 & Hr2 & _ & _ & Hgt2 & Hf2).
  split; [| split].
  - unfold after. rewrite Hr1, Hr2. simpl.
    rewrite Hgt1, Hgt2, Hg1, Hg2. unfold capacity. now rewrite Hsh1, Hsh2.
  - unfold after. rewrite Hr1, Hr2. simpl.
    rewrite Hf1, Hf2, Hg1, Hg2. unfold capacity. now rewrite Hsh1, Hsh2.
  - apply Hidx; trivial; congruence.
Qed.

(** X5 -- how the rows are cut into chunks does not matter to the reader.
    On a well-formed instance, appending a list of chunks one after the
    other and appending their concatenation in a single call both return,
    and leave the same [get] and the same [full]. *)
Theorem X5_chunking_is_irrelevant_to_get self (chunks : list (ndarray Row)) :
  wf self ->
  fst (appends chunks self) = Ok tt
  /\ fst (append (concat chunks) self) = Ok tt
  /\ get (after (appends chunks) self)
     = get (after (append (concat chunks)) self)
  /\ full (after (appends chunks) self)
     = full (after (append (concat chunks)) self).
Proof.
  intros Hwf.
  destruct (appends_transition chunks Hwf) as (s1 & Hr1 & _ & _ & Hg1 & Hf1).
  destruct (append_transition (concat chunks) Hwf)
    as (s2 & Hr2 & _ & _ & Hg2 & Hf2).
  unfold after. rewrite Hr1, Hr2. simpl.
  repeat split; congruence.
Qed.

(** The cursor after a sequence of appends: the rows written, counted
    modulo the capacity. *)
Lemma appends_cursor (chunks : list (ndarray Row)) self :
  wf self ->
  idx (after (appends chunks) self)
  = (idx self
     + Z.of_nat (list_sum (map (fun c => Nat.min (length c) (capacity self))
                             chunks)))
    mod fst (shape self).
Proof.
  revert self. induction chunks as [| c cs IH]; intros self Hwf.
  - simpl. rewrite Z.add_0_r. destruct Hwf as (Hc & _ & Hi).
    symmetry. now apply Z.mod_small.
  - destruct (append_transition c Hwf) as (s1 & Hr1 & Hwf1 & Hsh1 & _).
    pose proof (append_cursor c Hwf) as Hc1.
    specialize (IH s1 Hwf1).
    unfold after in *. simpl. unfold bind. rewrite Hr1 in *. simpl in Hc1.
    rewrite IH, Hc1. unfold capacity. rewrite Hsh1.
    rewrite Zplus_mod_idemp_l. f_equal. lia.
Qed.

(** X9 -- the cursor counts the rows written, modulo the capacity.  After
    any sequence of appends to a freshly constructed instance of capacity
    [C >= 1], [idx] is the sum of [min (len chunk) C] over the chunks,
    modulo [C]; when no chunk is oversized this is the total number of rows
    appended modulo [C]. *)
Theorem X9_cursor_counts_written_rows (junk : nat -> Row) shp self0
    (chunks : list (ndarray Row)) :
  1 <= fst shp -> __init__ junk shp = Ok self0 ->
  idx (after (appends chunks) self0)
  = Z.of_nat (list_sum (map (fun c => Nat.min (length c) (Z.to_nat (fst shp)))
                          chunks))
    mod fst shp
  /\ (Forall (fun c => len c <= fst shp) chunks ->
      idx (after (appends chunks) self0) = len (concat chunks) mod fst shp).
Proof.
  intros Hc Hinit.
  destruct (@init_fresh _ _ _ _ Hc Hinit) as (Hwf & Hsh & _ & _ & Hi0).
  pose proof (appends_cursor chunks Hwf) as H.
  unfold capacity in H. rewrite Hsh, Hi0 in H. simpl in H.
  split; [assumption |].
  intros Hall. rewrite H. clear H. do 2 f_equal. unfold len. f_equal.
  induction Hall as [| c cs Hlc _ IH]; simpl; [reflexivity |].
  rewrite length_app, IH. unfold len in Hlc. lia.
Qed.

(** X10 -- layout before the first wrap, and what a fitting append leaves
    alone.  On a well-formed instance that is not full, chunks whose rows
    together end strictly before the physical end are laid out one after
    the other from the cursor on: the rows before the cursor and the rows
    after the written window are untouched, the cursor advances by the
    number of rows, and [full] stays unset. *)
Theorem X10_layout_before_first_wrap self (chunks : list (ndarray Row)) :
  wf self -> full self = false ->
  idx self + len (concat chunks) < fst (shape self) ->
  appends chunks self
  = (Ok tt,
     mkRingBuffer (shape self)
       (firstn (Z.to_nat (idx self)) (data self) ++ concat chunks
        ++ skipn (Z.to_nat (idx self + len (concat chunks))) (data self))
       false (idx self + len (concat chunks))).
Proof.
  revert self. induction chunks as [| c cs IH]; intros self Hwf Hnf Hfit.
  - simpl in *. unfold ret. rewrite Z.add_0_r, firstn_skipn.
    destruct self; simpl in *. now subst.
  - simpl in Hfit. unfold len in Hfit. rewrite length_app in Hfit.
    pose proof Hwf as (Hc & Hlen & Hi).
    destruct (append_transition c Hwf) as (s1 & Hr1 & Hwf1 & Hsh1 & _).
    assert (Hs1 : s1 = mkRingBuffer (shape self)
                         (firstn (Z.to_nat (idx self)) (data self) ++ c
                          ++ skipn (Z.to_nat (idx self + len c)) (data self))
                         false (idx self + len c)).
    { destruct c as [| r c'].
      - rewrite append_nil in Hr1. injection Hr1 as <-.
        unfold len. simpl. rewrite Z.add_0_r, firstn_skipn.
        destruct self; simpl in *. now subst.
      - rewrite append_fits in Hr1;
          [| assumption | discriminate | unfold len in *; lia].
        injection Hr1 as <-. now rewrite Hnf. }
    simpl. unfold bind. rewrite Hr1.
    rewrite IH; [| assumption | now rewrite Hs1
                 | rewrite Hs1; simpl; unfold len in *; lia].
    rewrite Hs1. cbn [shape data full idx]. f_equal. unfold len in *.
    rewrite length_app.
    set (i := Z.to_nat (idx self)).
    replace (Z.to_nat (idx self + Z.of_nat (length c)))
      with (i + length c)%nat by lia.
    replace (Z.to_nat (idx self + Z.of_nat (length c)
                       + Z.of_nat (length (concat cs))))
      with (length (concat cs) + (i + length c))%nat by lia.
    replace (Z.to_nat (idx self
                       + Z.of_nat (length c + length (concat cs))))
      with (length (concat cs) + (i + length c))%nat by lia.
    assert (Hfn : length (firstn i (data self) ++ c) = (i + length c)%nat).
    { rewrite length_app, length_firstn. lia. }
    f_equal; [| lia].
    rewrite (app_assoc (firstn i (data self)) c).
    rewrite firstn_app_len by assumption.
    rewrite skipn_app_ge by lia. rewrite Hfn, skipn_skipn.
    rewrite <- !app_assoc. do 3 f_equal. f_equal. lia.
Qed.

(** Slice assignment into a storage without rows. *)
Lemma setslice_empty lo hi (v : ndarray Row) :
  setslice lo hi [] v
  = match v with
    | [] | [_] => Ok []
    | _ => Raise ValueError
    end.
Proof.
  unfold setslice.
  pose proof (@slice_range_inside lo hi (len (@nil Row)) (len_nonneg [])) as H.
  destruct (slice_range lo hi (len [])) as [s k]. simpl in H.
  assert (s = 0%nat /\ k = 0%nat) as [-> ->] by lia.
  destruct v as [| r [| r' v']]; reflexivity.
Qed.

(** One single-row append on an instance without storage. *)
Lemma append_one_zero_capacity ch f i (r : Row) :
  0 <= i ->
  append [r] (mkRingBuffer (0, ch) [] f i)
  = (Ok tt, mkRingBuffer (0, ch) [] true (i + 1)).
Proof.
  intros Hi. unfold append, bind, self_shape, self_idx.
  cbn [shape data full idx fst].
  change (truncate 0 [r]) with [r]. change (len [r]) with 1.
  change (1 =? 0) with false. cbv beta iota.
  cbn [shape data full idx fst].
  destruct (Z.ltb_spec (i + 1) 0); [lia |].
  unfold append_wrap, assign_data, bind, self_idx, self_data, self_shape,
    lift, set_data, set_idx, set_full.
  cbn [shape data full idx fst].
  rewrite getslice_upto_any, getslice_from_any.
  assert (Hn : Z.to_nat (norm_index (len [r]) (0 - i)) = 0%nat).
  { unfold norm_index. change (len [r]) with 1.
    destruct (Z.ltb_spec (0 - i) 0); lia. }
  rewrite Hn. cbn [firstn skipn].
  rewrite setslice_empty. cbn [shape data full idx fst].
  rewrite setslice_empty. cbn [shape data full idx fst].
  change (len [r]) with 1. do 2 f_equal. lia.
Qed.

(** X6 -- a zero-capacity instance rejects chunks of two or more rows, but
    only after raising its flag.  On the instance that the constructor
    returns for a shape [(0, channels)], [append] of at least two rows
    raises [ValueError] (the second slice assignment cannot broadcast), and
    leaves [full] set although nothing was stored. *)
Theorem X6_zero_capacity_append_raises (junk : nat -> Row) ch self0 rows :
  __init__ junk (0, ch) = Ok self0 -> (2 <= length rows)%nat ->
  append rows self0 = (Raise ValueError, mkRingBuffer (0, ch) [] true 0)
  /\ get (after (append rows) self0) = [].
Proof.
  intros Hinit Hlen. apply init_inv in Hinit as (_ & _ & ->). simpl.
  assert (Hrun : append rows (mkRingBuffer (0, ch) [] false 0)
                 = (Raise ValueError, mkRingBuffer (0, ch) [] true 0)).
  { unfold append, bind, self_shape, self_idx. simpl.
    assert (Ht : truncate 0 rows = rows).
    { unfold truncate. destruct (Z.gtb_spec (len rows) 0);
        [| reflexivity].
      simpl. now rewrite getslice_from by lia. }
    rewrite Ht.
    destruct (Z.eqb_spec (len rows) 0); [unfold len in *; lia |]. simpl.
    destruct (Z.ltb_spec (len rows) 0); [unfold len in *; lia |].
    unfold append_wrap, assign_data, bind, self_idx, self_data, self_shape,
      lift, set_data, set_idx, set_full. simpl.
    rewrite !setslice_empty.
    rewrite getslice_upto, getslice_from by lia. simpl.
    destruct rows as [| r1 [| r2 rows']]; simpl in Hlen; try lia.
    reflexivity. }
  split; [assumption |]. unfold after. rewrite Hrun. reflexivity.
Qed.

(** X7 -- a zero-capacity instance swallows single rows.  On the instance
    the constructor returns for a shape [(0, channels)], appending rows one
    at a time always returns normally, yet nothing is stored: [get] stays
    empty, while the cursor grows by one per call, out of the (empty)
    storage, and [full] is set from the first row on. *)
Theorem X7_zero_capacity_loses_single_rows (junk : nat -> Row) ch self0 rows :
  __init__ junk (0, ch) = Ok self0 ->
  appends (map (fun r => [r]) rows) self0
  = (Ok tt,
     mkRingBuffer (0, ch) [] (match rows with [] => false | _ => true end)
       (len rows))
  /\ get (after (appends (map (fun r => [r]) rows)) self0) = [].
Proof.
  intros Hinit. apply init_inv in Hinit as (_ & _ & ->). simpl.
  assert (Hgen : forall (rs : ndarray Row) f i, 0 <= i ->
             appends (map (fun r => [r]) rs) (mkRingBuffer (0, ch) [] f i)
             = (Ok tt,
                mkRingBuffer (0, ch) []
                  (match rs with [] => f | _ => true end) (i + len rs))).
  { induction rs as [| r rs IH]; intros f i Hi.
    - simpl. unfold ret, len. simpl. now rewrite Z.add_0_r.
    - simpl. unfold bind. rewrite append_one_zero_capacity by assumption.
      rewrite IH by lia. do 2 f_equal.
      + now destruct rs.
      + unfold len. simpl length. lia. }
  rewrite (Hgen rows false 0) by lia. simpl. split; [reflexivity |].
  unfold after. rewrite (Hgen rows false 0) by lia.
  unfold get. simpl. destruct rows; simpl; rewrite ?getslice_nil; reflexivity.
Qed.

End Extras.

(** ** The timing harness *)

Section HarnessFacts.

Variables Row Time : Type.
Variable clock : nat -> Time.
Variable minus : Time -> Time -> Time.
Variable ms : Time -> Time.
Variable junk : nat -> nat -> Row.
Implicit Types (self : RingBuffer Row).

(** On a well-formed buffer and with a valid shape, the rounds of the loop
    are the successive appends of their arrays, and every round records one
    sample. *)
Lemma profile_loop_run (shp : Z * Z) (n : nat) :
  0 <= fst shp -> 0 <= snd shp ->
  forall i times self,
    wf self ->
    exists self',
      appends (profile_chunks junk shp n i) self = (Ok tt, self')
      /\ profile_loop clock minus junk shp n i times self
         = (Ok (times ++ profile_samples clock minus n i), self').
Proof.
  intros H1 H2. induction n as [| n IH]; intros i times self Hwf.
  - exists self. simpl. unfold ret. now rewrite app_nil_r.
  - set (c := map (junk (S i)) (seq 0 (Z.to_nat (fst shp)))).
    destruct (append_transition c Hwf) as (s1 & Hr1 & Hwf1 & _).
    destruct (IH (S i) (times ++ [minus (clock (2 * i + 1)) (clock (2 * i))])
                s1 Hwf1) as (s2 & Hr2 & Hl2).
    exists s2. split.
    + unfold profile_chunks. simpl. fold c. unfold bind. rewrite Hr1.
      exact Hr2.
    + cbn [profile_loop]. unfold bind at 1, lift.
      rewrite np_empty_ok by assumption. fold c.
      unfold bind at 1. rewrite Hr1.
      unfold bind at 1. rewrite Hl2.
      unfold profile_samples. cbn [seq map]. now rewrite <- app_assoc.
Qed.

(** X11 -- [profile] on a well-formed buffer.  With a shape of non-negative
    dimensions (and the buffer's channels), [profile] returns normally with
    exactly [iterations] samples (none when [iterations <= 0]).  The buffer
    is then full, whatever it held before: its content is the last
    [capacity] rows of the warm-up array followed by the arrays of the
    timed rounds, and nothing of the earlier content is left. *)
Theorem X11_profile_fills_buffer_and_returns_samples
    (shp : Z * Z) (iterations : Z) self :
  wf self -> 0 <= snd (shape self) ->
  0 <= fst shp -> snd shp = snd (shape self) ->
  exists self',
    profile clock minus ms junk shp iterations self
    = (Ok (map ms (profile_samples clock minus (Z.to_nat iterations) 0)),
       self')
    /\ length (map ms (profile_samples clock minus (Z.to_nat iterations) 0))
       = Z.to_nat iterations
    /\ wf self' /\ shape self' = shape self
    /\ full self' = true
    /\ get self'
       = lastn (capacity self)
           (map (junk 0) (seq 0 (capacity self))
            ++ concat (profile_chunks junk shp (Z.to_nat iterations) 0)).
Proof.
  intros Hwf Hch Hrows Hcols.
  pose proof Hwf as (Hc & _).
  set (warm := map (junk 0) (seq 0 (capacity self))).
  assert (Hwl : length warm = capacity self)
    by (unfold warm; now rewrite length_map, length_seq).
  destruct (append_transition warm Hwf)
    as (s1 & Hr1 & Hwf1 & Hsh1 & Hg1 & Hf1).
  assert (Hcap1 : capacity s1 = capacity self)
    by (unfold capacity; now rewrite Hsh1).
  destruct (@profile_loop_run shp (Z.to_nat iterations) Hrows
              ltac:(lia) 0%nat [] s1 Hwf1) as (s2 & Hr2 & Hl2).
  destruct (appends_transition
              (profile_chunks junk shp (Z.to_nat iterations) 0) Hwf1)
    as (s2' & Hr2' & Hwf2 & Hsh2 & Hg2 & Hf2).
  rewrite Hr2 in Hr2'. injection Hr2' as <-.
  exists s2. split.
  { unfold profile, bind at 1, self_shape. unfold bind at 1, lift.
    rewrite np_empty_ok by lia. fold (capacity self). fold warm.
    unfold bind at 1. rewrite Hr1.
    unfold bind, ret. now rewrite Hl2. }
  split.
  { unfold profile_samples. now rewrite !length_map, length_seq. }
  split; [assumption |]. split; [congruence |]. split.
  - rewrite Hf2. apply Nat.leb_le.
    rewrite Hg1, length_lastn, length_app, Hcap1. lia.
  - rewrite Hg2, Hg1, Hcap1, <- lastn_app_lastn_l.
    rewrite <- app_assoc, (lastn_app_ge (get self)); [reflexivity |].
    rewrite length_app. lia.
Qed.

(** X12 -- a bad [shape] is noticed only after the warm-up.  On a
    well-formed buffer, [profile] with a negative row count and at least one
    iteration raises [ValueError], but only after it has overwritten the
    whole buffer with the warm-up array: the instance is left full, with
    the cursor where it was, and [get] returns the warm-up array. *)
Theorem X12_profile_bad_shape_raises_after_warm_up
    (shp : Z * Z) (iterations : Z) self :
  wf self -> 0 <= snd (shape self) ->
  fst shp < 0 -> 1 <= iterations ->
  exists self',
    profile clock minus ms junk shp iterations self
    = (Raise ValueError, self')
    /\ full self' = true
    /\ idx self' = idx self
    /\ get self' = map (junk 0) (seq 0 (capacity self)).
Proof.
  intros Hwf Hch Hneg Hit.
  pose proof Hwf as (Hc & _).
  set (warm := map (junk 0) (seq 0 (capacity self))).
  assert (Hwl : length warm = capacity self)
    by (unfold warm; now rewrite length_map, length_seq).
  destruct (append_transition warm Hwf)
    as (s1 & Hr1 & Hwf1 & Hsh1 & Hg1 & Hf1).
  pose proof (append_cursor warm Hwf) as Hcur.
  unfold after in Hcur. rewrite Hr1 in Hcur. simpl in Hcur.
  exists s1. split; [| split; [| split]].
  - unfold profile, bind at 1, self_shape. unfold bind at 1, lift.
    rewrite np_empty_ok by lia. fold (capacity self). fold warm.
    unfold bind at 1. rewrite Hr1.
    destruct (Z.to_nat iterations) as [| n] eqn:En; [lia |].
    unfold bind at 1. cbn [profile_loop]. unfold bind at 1, lift, np_empty.
    destruct (Z.ltb_spec (fst shp) 0); [reflexivity | lia].
  - rewrite Hf1. apply Nat.leb_le. lia.
  - rewrite Hcur, Hwl, Nat.min_id. destruct Hwf as (_ & _ & Hi).
    unfold capacity. rewrite Z2Nat.id by lia.
    rewrite <- (Z.mul_1_l (fst (shape self))) at 1.
    rewrite Z_mod_plus_full. now apply Z.mod_small.
  - rewrite Hg1. rewrite lastn_app_ge by lia. apply lastn_all. lia.
Qed.

End HarnessFacts.

(** ** The further properties at concrete inputs *)

Module ExtraWitness.

Import Scenario Bench.

Ltac concrete_wf := vm_compute; repeat split; first [discriminate | reflexivity].

Lemma X1_witness :
  wf rb2
  /\ idx (after (append oversized) rb2)
     = (idx rb2 + Z.of_nat (Nat.min (length oversized) (capacity rb2)))
       mod fst (shape rb2).
Proof.
  assert (H1 : wf rb2) by concrete_wf.
  exact (conj H1
           (@X1_append_moves_cursor_modulo_capacity row rb2 oversized H1)).
Defined.

Lemma X2_witness :
  wf rb2 /\ (capacity rb2 <= length oversized)%nat
  /\ (let d := lastn (capacity rb2) oversized in
      let k := (capacity rb2 - Z.to_nat (idx rb2))%nat in
      append oversized rb2
      = (Ok tt,
         mkRingBuffer (shape rb2) (skipn k d ++ firstn k d) true (idx rb2))
      /\ get (after (append oversized) rb2) = d).
Proof.
  assert (H1 : wf rb2) by concrete_wf.
  assert (H2 : (capacity rb2 <= length oversized)%nat) by (vm_compute; lia).
  exact (conj H1 (conj H2
           (@X2_append_of_capacity_rows_keeps_cursor row rb2 oversized
              H1 H2))).
Defined.

Lemma X4_witness :
  1 <= fst shp
  /\ __init__ junk shp = Ok rb0
  /\ __init__ (fun _ => [7]) shp
     = Ok (mkRingBuffer shp [[7]; [7]; [7]; [7]] false 0)
  /\ (get (after (appends chunks) rb0)
      = get (after (appends chunks)
               (mkRingBuffer shp [[7]; [7]; [7]; [7]] false 0))
      /\ full (after (appends chunks) rb0)
         = full (after (appends chunks)
                   (mkRingBuffer shp [[7]; [7]; [7]; [7]] false 0))
      /\ idx (after (appends chunks) rb0)
         = idx (after (appends chunks)
                  (mkRingBuffer shp [[7]; [7]; [7]; [7]] false 0))).
Proof.
  assert (H1 : 1 <= fst shp) by (simpl; lia).
  assert (H2 : __init__ junk shp = Ok rb0) by reflexivity.
  assert (H3 : __init__ (fun _ : nat => [7]) shp
               = Ok (mkRingBuffer shp [[7]; [7]; [7]; [7]] false 0))
    by reflexivity.
  exact (conj H1 (conj H2 (conj H3
           (@X4_get_ignores_uninitialised_storage row junk (fun _ => [7]) shp
              rb0 (mkRingBuffer shp [[7]; [7]; [7]; [7]] false 0) chunks
              H1 H2 H3)))).
Defined.

Lemma X5_witness :
  wf rb1
  /\ (fst (appends chunks rb1) = Ok tt
      /\ fst (append (concat chunks) rb1) = Ok tt
      /\ get (after (appends chunks) rb1)
         = get (after (append (concat chunks)) rb1)
      /\ full (after (appends chunks) rb1)
         = full (after (append (concat chunks)) rb1)).
Proof.
  assert (H1 : wf rb1) by concrete_wf.
  exact (conj H1 (@X5_chunking_is_irrelevant_to_get row rb1 chunks H1)).
Defined.

Lemma X6_witness :
  __init__ junk (0, 1) = Ok rbz /\ (2 <= length [[1]; [2]])%nat
  /\ (append [[1]; [2]] rbz
      = (Raise ValueError, mkRingBuffer (0, 1) [] true 0)
      /\ get (after (append [[1]; [2]]) rbz) = []).
Proof.
  assert (H1 : __init__ junk (0, 1) = Ok rbz) by reflexivity.
  assert (H2 : (2 <= length [[1]; [2]])%nat) by (simpl; lia).
  exact (conj H1 (conj H2
           (@X6_zero_capacity_append_raises row junk 1 rbz [[1]; [2]]
              H1 H2))).
Defined.

Lemma X7_witness :
  __init__ junk (0, 1) = Ok rbz
  /\ (appends (map (fun r => [r]) [[1]; [2]; [3]]) rbz
      = (Ok tt,
         mkRingBuffer (0, 1) []
           (match [[1]; [2]; [3]] with [] => false | _ => true end)
           (len [[1]; [2]; [3]]))
      /\ get (after (appends (map (fun r => [r]) [[1]; [2]; [3]])) rbz) = []).
Proof.
  assert (H1 : __init__ junk (0, 1) = Ok rbz) by reflexivity.
  exact (conj H1
           (@X7_zero_capacity_loses_single_rows row junk 1 rbz
              [[1]; [2]; [3]] H1)).
Defined.

Lemma X9_witness :
  1 <= fst shp /\ __init__ junk shp = Ok rb0
  /\ (idx (after (appends chunks) rb0)
      = Z.of_nat
          (list_sum (map (fun c => Nat.min (length c) (Z.to_nat (fst shp)))
                       chunks))
        mod fst shp
      /\ (Forall (fun c => len c <= fst shp) chunks ->
          idx (after (appends chunks) rb0) = len (concat chunks) mod fst shp)).
Proof.
  assert (H1 : 1 <= fst shp) by (simpl; lia).
  assert (H2 : __init__ junk shp = Ok rb0) by reflexivity.
  exact (conj H1 (conj H2
           (@X9_cursor_counts_written_rows row junk shp rb0 chunks H1 H2))).
Defined.

Lemma X10_witness :
  wf rb0 /\ full rb0 = false
  /\ idx rb0 + len (concat small) < fst (shape rb0)
  /\ appends small rb0
     = (Ok tt,
        mkRingBuffer (shape rb0)
          (firstn (Z.to_nat (idx rb0)) (data rb0) ++ concat small
           ++ skipn (Z.to_nat (idx rb0 + len (concat small))) (data rb0))
          false (idx rb0 + len (concat small))).
Proof.
  assert (H1 : wf rb0) by concrete_wf.
  assert (H2 : full rb0 = false) by reflexivity.
  assert (H3 : idx rb0 + len (concat small) < fst (shape rb0))
    by reflexivity.
  exact (conj H1 (conj H2 (conj H3
           (@X10_layout_before_first_wrap row rb0 small H1 H2 H3)))).
Defined.

Lemma X11_witness :
  wf rb1 /\ 0 <= snd (shape rb1) /\ 0 <= fst (2, 1)
  /\ snd (2, 1) = snd (shape rb1)
  /\ exists self',
       profile clock Z.sub ms junks (2, 1) 3 rb1
       = (Ok (map ms (profile_samples clock Z.sub (Z.to_nat 3) 0)), self')
       /\ length (map ms (profile_samples clock Z.sub (Z.to_nat 3) 0))
          = Z.to_nat 3
       /\ wf self' /\ shape self' = shape rb1
       /\ full self' = true
       /\ get self'
          = lastn (capacity rb1)
              (map (junks 0) (seq 0 (capacity rb1))
               ++ concat (profile_chunks junks (2, 1) (Z.to_nat 3) 0)).
Proof.
  assert (H1 : wf rb1) by concrete_wf.
  assert (H2 : 0 <= snd (shape rb1)) by (vm_compute; discriminate).
  assert (H3 : 0 <= fst (2, 1)) by (simpl; lia).
  assert (H4 : snd (2, 1) = snd (shape rb1)) by reflexivity.
  exact (conj H1 (conj H2 (conj H3 (conj H4
           (@X11_profile_fills_buffer_and_returns_samples row Z clock Z.sub
              ms junks (2, 1) 3 rb1 H1 H2 H3 H4))))).
Defined.

Lemma X12_witness :
  wf rb1 /\ 0 <= snd (shape rb1) /\ fst (-1, 1) < 0 /\ 1 <= 1
  /\ exists self',
       profile clock Z.sub ms junks (-1, 1) 1 rb1 = (Raise ValueError, self')
       /\ full self' = true
       /\ idx self' = idx rb1
       /\ get self' = map (junks 0) (seq 0 (capacity rb1)).
Proof.
  assert (H1 : wf rb1) by concrete_wf.
  assert (H2 : 0 <= snd (shape rb1)) by (vm_compute; discriminate).
  assert (H3 : fst (-1, 1) < 0) by reflexivity.
  assert (H4 : 1 <= 1) by lia.
  exact (conj H1 (conj H2 (conj H3 (conj H4
           (@X12_profile_bad_shape_raises_after_warm_up row Z clock Z.sub
              ms junks (-1, 1) 1 rb1 H1 H2 H3 H4))))).
Defined.

(** The harness on the scenario's buffer: three rounds of two rows on a
    buffer of capacity 4 holding three rows. *)
Example profile_scenario :
  let r := profile clock Z.sub ms junks (2, 1) 3 rb1 in
  fst r = Ok [1000; 1000; 1000]
  /\ get (snd r) = [[2]; [2]; [3]; [3]]
  /\ idx (snd r) = 1.
Proof. repeat split; reflexivity. Qed.

End ExtraWitness.
